(** * jucacaju-api: the ingredient-processing workflow

    A shallow embedding of the pantry handlers of [src/server.js] (SQLite)
    and [src/server-production.js] (PostgreSQL):

    - the ingredient normalizer ([ingredientList], server.js 93-96),
    - the reconciler ([processIngredient], [processNext], server.js 102-159),
    - the pantry upsert endpoint in both variants (server.js 213-231,
      server-production.js 162-180).

    JavaScript strings are sequences of UTF-16 code units.  The two pantry
    tables are lists of rows, in insertion order, with the counter that
    hands out row identifiers.  A handler runs against an environment that
    decides, for every call issued to the storage driver, whether the
    driver reports a failure and which timestamp the store sees.  A
    request is followed on its own: between two of its statements no other
    request writes to the database. *)

From Stdlib Require Import ZArith String Ascii Decimal Lia.
From stdpp Require Import base decidable option list.
From Equations Require Import Equations.

Local Open Scope Z_scope.

(* ===================================================================== *)
(** ** JavaScript strings *)
(* ===================================================================== *)

(** A string is the list of its UTF-16 code units. *)
Abbreviation jsstring := (list Z).

(** Code units of a literal written in Basic Latin. *)
Definition u16 (s : string) : jsstring :=
  map (fun a => Z.of_N (N_of_ascii a)) (list_ascii_of_string s).

(** [WhiteSpace] and [LineTerminator] of ECMAScript, the code units that
    [String.prototype.trim] strips. *)
Definition isWhiteSpace (c : Z) : bool :=
  ((9 <=? c) && (c <=? 13))            (* TAB LF VT FF CR *)
  || (c =? 32)                         (* SPACE *)
  || (c =? 160)                        (* NO-BREAK SPACE *)
  || (c =? 5760)                       (* U+1680 *)
  || ((8192 <=? c) && (c <=? 8202))    (* U+2000 .. U+200A *)
  || (c =? 8232) || (c =? 8233)        (* LINE / PARAGRAPH SEPARATOR *)
  || (c =? 8239) || (c =? 8287)        (* U+202F, U+205F *)
  || (c =? 12288)                      (* U+3000 *)
  || (c =? 65279).                     (* U+FEFF *)

Fixpoint trimStart (s : jsstring) : jsstring :=
  match s with
  | [] => []
  | c :: s' => if isWhiteSpace c then trimStart s' else s
  end.

Definition trimEnd (s : jsstring) : jsstring := reverse (trimStart (reverse s)).

(** [s.trim()] *)
Definition trim (s : jsstring) : jsstring := trimEnd (trimStart s).

(** A run of white space. *)
Definition blank (s : jsstring) : Prop := Forall (fun c => isWhiteSpace c = true) s.

(** [s.split(sep)] for a separator of one code unit: the pieces between
    the occurrences of [sep]; a string without separator is its own single
    piece, the empty string included. *)
Fixpoint split (sep : Z) (s : jsstring) : list jsstring :=
  match s with
  | [] => [[]]
  | c :: s' =>
      if c =? sep then [] :: split sep s'
      else match split sep s' with
           | piece :: pieces => (c :: piece) :: pieces
           | [] => [[c]]
           end
  end.

(** [pieces.join(sep)], the inverse reading of [split]. *)
Fixpoint join (sep : Z) (pieces : list jsstring) : jsstring :=
  match pieces with
  | [] => []
  | [piece] => piece
  | piece :: rest => piece ++ sep :: join sep rest
  end.

Definition comma : Z := 44.

Definition isBasicLatin (c : Z) : bool := (0 <=? c) && (c <? 128).

(** Lower case inside Basic Latin: [A-Z] to [a-z]. *)
Definition lowerBasicLatin (c : Z) : Z :=
  if (65 <=? c) && (c <=? 90) then c + 32 else c.

(** [String.prototype.toLowerCase] is the engine's Unicode case mapping.
    It is taken as an interface: all the development relies on is what the
    mapping does to strings written in Basic Latin. *)
Class CaseMapping := {
  toLowerCase : jsstring -> jsstring;
  toLowerCase_basic_latin :
    forall s, forallb isBasicLatin s = true ->
              toLowerCase s = map lowerBasicLatin s
}.

(** The mapping restricted to Basic Latin and Latin-1 (U+00C0 .. U+00DE
    but the multiplication sign), the alphabet of the sample data. *)
Definition lowerLatin1 (c : Z) : Z :=
  if (65 <=? c) && (c <=? 90) then c + 32
  else if (192 <=? c) && (c <=? 222) && negb (c =? 215) then c + 32
  else c.

Lemma lowerLatin1_basic_latin (s : jsstring) :
  forallb isBasicLatin s = true -> map lowerLatin1 s = map lowerBasicLatin s.
Proof.
  induction s as [|c s IH]; simpl; [reflexivity|].
  intros [Hc Hs]%andb_prop. rewrite (IH Hs). f_equal.
  unfold lowerLatin1, lowerBasicLatin, isBasicLatin in *.
  destruct ((65 <=? c) && (c <=? 90)) eqn:E; [reflexivity|].
  destruct ((192 <=? c) && (c <=? 222) && negb (c =? 215)) eqn:E'; [|reflexivity].
  lia.
Qed.

#[export] Instance latin1_case_mapping : CaseMapping := {|
  toLowerCase := map lowerLatin1;
  toLowerCase_basic_latin := lowerLatin1_basic_latin
|}.

(* ===================================================================== *)
(** ** The ingredient normalizer (server.js 93-96) *)
(* ===================================================================== *)

(** [ingredients.split(",").map(i => i.trim().toLowerCase())
                .filter(i => i.length > 0)] *)
Definition ingredientList `{CaseMapping} (ingredients : jsstring) : list jsstring :=
  filter (fun ingredient => (0 < length ingredient)%nat)
         (map (fun ingredient => toLowerCase (trim ingredient))
              (split comma ingredients)).

(* ===================================================================== *)
(** ** Request and response values *)
(* ===================================================================== *)

(** JSON values, as [express.json()] parses them into [req.body] and as
    [res.json] sends them.  Of a number the handlers only test whether it
    is zero, so integers stand for the numbers. *)
#[local] Unset Elimination Schemes.
Inductive json :=
| JNull
| JBool (b : bool)
| JNum (n : Z)
| JStr (s : jsstring)
| JArr (items : list json)
| JObj (fields : list (string * json)).
#[local] Set Elimination Schemes.

(** A field of the request body: [None] is a field the body does not
    have, which destructuring reads as [undefined]. *)
Definition truthy (v : option json) : bool :=
  match v with
  | None | Some JNull => false
  | Some (JBool b) => b
  | Some (JNum n) => negb (n =? 0)
  | Some (JStr s) => negb (bool_decide (s = []))
  | Some (JArr _) | Some (JObj _) => true
  end.

(** [body[name]] of a response body. *)
Definition field (name : string) (body : json) : option json :=
  match body with
  | JObj fields => snd <$> List.find (fun f => String.eqb (fst f) name) fields
  | _ => None
  end.

(** How a request ends: [res.status(..).json(..)], or an exception that
    leaves the handler for the framework. *)
Inductive outcome :=
| Responded (status : Z) (body : json)
| Threw.

(** [String(n)] of a count. *)
Fixpoint digits (d : Decimal.uint) : jsstring :=
  match d with
  | Nil => []
  | D0 d => 48 :: digits d | D1 d => 49 :: digits d | D2 d => 50 :: digits d
  | D3 d => 51 :: digits d | D4 d => 52 :: digits d | D5 d => 53 :: digits d
  | D6 d => 54 :: digits d | D7 d => 55 :: digits d | D8 d => 56 :: digits d
  | D9 d => 57 :: digits d
  end.

Definition numberToString (n : nat) : jsstring := digits (Nat.to_uint n).

(* ===================================================================== *)
(** ** The storage driver *)
(* ===================================================================== *)

(** The statements the pantry handlers issue. *)
Inductive statement :=
| SelectPantry (ingredient : jsstring)
    (* SELECT * FROM pantry WHERE ingredient = ? *)
| InsertPantry (ingredient : jsstring) (has_item : Z)
    (* INSERT INTO pantry (ingredient, has_item) VALUES (?, 0) *)
| InsertOrReplacePantry (ingredient : jsstring) (has_item : Z)
    (* INSERT OR REPLACE INTO pantry (ingredient, has_item) VALUES (?, ?) *)
| InsertOnConflictUpdatePantry (ingredient : jsstring) (has_item : option bool).
    (* INSERT INTO pantry (ingredient, has_item) VALUES ($1, $2)
       ON CONFLICT (ingredient) DO UPDATE SET has_item = $2 *)

(** What the handlers do not control: for the n-th statement sent to the
    driver, the failure the driver reports (its message), if any, and the
    value of CURRENT_TIMESTAMP. *)
Record environment := {
  fault : nat -> option jsstring;
  current_timestamp : nat -> Z
}.

(** *** SQLite (server.js 30-35) *)

(** pantry(id INTEGER PRIMARY KEY AUTOINCREMENT, ingredient TEXT NOT NULL
    UNIQUE, has_item BOOLEAN DEFAULT 1, created_at DATETIME DEFAULT
    CURRENT_TIMESTAMP).  A BOOLEAN column of SQLite holds the integers the
    statements bind. *)
Record pantry_row := {
  row_id : Z;
  row_ingredient : jsstring;
  row_has_item : Z;
  row_created_at : Z
}.

Definition has_item_default : Z := 1.

(** The database: the pantry table, the AUTOINCREMENT counter kept in
    sqlite_sequence, and the statements issued so far. *)
Record sqlite := {
  pantry : list pantry_row;
  pantry_seq : Z;
  issued : list statement
}.

(** [ingredient = ?]: texts are equal when their code units are (the
    BINARY collation, on strings without unpaired surrogates). *)
Definition has_key (key : jsstring) (row : pantry_row) : bool :=
  bool_decide (row_ingredient row = key).

(** AUTOINCREMENT: one more than the largest identifier ever used. *)
Definition next_rowid (s : sqlite) : Z :=
  Z.max (pantry_seq s) (foldr Z.max 0 (row_id <$> pantry s)) + 1.

Definition issue (q : statement) (s : sqlite) : sqlite :=
  {| pantry := pantry s; pantry_seq := pantry_seq s; issued := issued s ++ [q] |}.

Definition unique_failed : jsstring :=
  u16 "SQLITE_CONSTRAINT: UNIQUE constraint failed: pantry.ingredient".

(** [db.get("SELECT * FROM pantry WHERE ingredient = ?", [key], cb)]:
    the callback receives [err], or the first matching row, or nothing. *)
Definition db_get (e : environment) (key : jsstring) (s : sqlite)
  : sqlite * (jsstring + option pantry_row) :=
  match fault e (length (issued s)) with
  | Some err => (issue (SelectPantry key) s, inl err)
  | None => (issue (SelectPantry key) s, inr (List.find (has_key key) (pantry s)))
  end.

Definition inserted_row (e : environment) (key : jsstring) (has : Z) (s : sqlite)
  : pantry_row :=
  {| row_id := next_rowid s; row_ingredient := key; row_has_item := has;
     row_created_at := current_timestamp e (length (issued s)) |}.

(** [db.run("INSERT INTO pantry (ingredient, has_item) VALUES (?, h)", [key], cb)]:
    refused by the UNIQUE constraint when the key is taken. *)
Definition db_run_insert (e : environment) (key : jsstring) (has : Z) (s : sqlite)
  : sqlite * option jsstring :=
  match fault e (length (issued s)) with
  | Some err => (issue (InsertPantry key has) s, Some err)
  | None =>
      if existsb (has_key key) (pantry s)
      then (issue (InsertPantry key has) s, Some unique_failed)
      else ({| pantry := pantry s ++ [inserted_row e key has s];
               pantry_seq := next_rowid s;
               issued := issued s ++ [InsertPantry key has] |}, None)
  end.

(** [db.run("INSERT OR REPLACE INTO pantry (ingredient, has_item) VALUES (?, ?)", ..)]:
    the rows in conflict on the key are deleted, then the new row is
    inserted. *)
Definition db_run_insert_or_replace (e : environment) (key : jsstring) (has : Z)
  (s : sqlite) : sqlite * option jsstring :=
  match fault e (length (issued s)) with
  | Some err => (issue (InsertOrReplacePantry key has) s, Some err)
  | None =>
      ({| pantry := List.filter (fun row => negb (has_key key row)) (pantry s)
                    ++ [inserted_row e key has s];
          pantry_seq := next_rowid s;
          issued := issued s ++ [InsertOrReplacePantry key has] |}, None)
  end.

(** *** PostgreSQL (server-production.js 38-45) *)

(** pantry(id SERIAL PRIMARY KEY, ingredient TEXT NOT NULL UNIQUE,
    has_item BOOLEAN DEFAULT true, created_at TIMESTAMP DEFAULT
    CURRENT_TIMESTAMP); [None] in has_item is NULL. *)
Record pg_row := {
  pg_id : Z;
  pg_ingredient : jsstring;
  pg_has_item : option bool;
  pg_created_at : Z
}.

Record postgres := {
  pg_pantry : list pg_row;
  pantry_id_seq : Z;
  pg_issued : list statement
}.

Definition pg_has_key (key : jsstring) (row : pg_row) : bool :=
  bool_decide (pg_ingredient row = key).

Definition set_has_item (has : option bool) (row : pg_row) : pg_row :=
  {| pg_id := pg_id row; pg_ingredient := pg_ingredient row;
     pg_has_item := has; pg_created_at := pg_created_at row |}.

(** DO UPDATE SET has_item = $2, on the row in conflict. *)
Definition update_has_item (key : jsstring) (has : option bool) (row : pg_row) : pg_row :=
  if pg_has_key key row then set_has_item has row else row.

(** [pool.query("INSERT .. ON CONFLICT (ingredient) DO UPDATE SET has_item = $2", ..)]:
    the row in conflict is updated in place; the sequence behind SERIAL
    has been advanced for the proposed row either way. *)
Definition pool_query_upsert (e : environment) (key : jsstring) (has : option bool)
  (p : postgres) : postgres * option jsstring :=
  let q := InsertOnConflictUpdatePantry key has in
  match fault e (length (pg_issued p)) with
  | Some err =>
      ({| pg_pantry := pg_pantry p; pantry_id_seq := pantry_id_seq p;
          pg_issued := pg_issued p ++ [q] |}, Some err)
  | None =>
      if existsb (pg_has_key key) (pg_pantry p)
      then ({| pg_pantry := update_has_item key has <$> pg_pantry p;
               pantry_id_seq := pantry_id_seq p + 1;
               pg_issued := pg_issued p ++ [q] |}, None)
      else ({| pg_pantry := pg_pantry p ++
                 [{| pg_id := pantry_id_seq p + 1; pg_ingredient := key;
                     pg_has_item := has;
                     pg_created_at := current_timestamp e (length (pg_issued p)) |}];
               pantry_id_seq := pantry_id_seq p + 1;
               pg_issued := pg_issued p ++ [q] |}, None)
  end.

(* ===================================================================== *)
(** ** The reconciler (server.js 83-160) *)
(* ===================================================================== *)

(** What the closures of one request share: the two counters and the
    database they read and write. *)
Record reconciler := {
  processedCount : nat;
  addedToShoppingList : nat;
  db : sqlite
}.

(** [processIngredient(ingredient, callback)]: the value paired with the
    new state is the argument the callback receives, an error or null. *)
Definition processIngredient (e : environment) (ingredient : jsstring) (r : reconciler)
  : reconciler * option jsstring :=
  match db_get e ingredient (db r) with
  | (s, inl err) =>
      ({| processedCount := processedCount r;
          addedToShoppingList := addedToShoppingList r; db := s |}, Some err)
  | (s, inr (Some row)) =>
      ({| processedCount := S (processedCount r);
          addedToShoppingList := addedToShoppingList r; db := s |}, None)
  | (s, inr None) =>
      match db_run_insert e ingredient 0 s with
      | (s', Some err) =>
          ({| processedCount := processedCount r;
              addedToShoppingList := addedToShoppingList r; db := s' |}, Some err)
      | (s', None) =>
          ({| processedCount := S (processedCount r);
              addedToShoppingList := S (addedToShoppingList r); db := s' |}, None)
      end
  end.

Definition error_body (message : jsstring) : json :=
  JObj [("error"%string, JStr message)].

(** The object [processNext] sends once the list is exhausted. *)
Definition summary (ingredientList : list jsstring) (r : reconciler) : json :=
  JObj [("message"%string,
          JStr (u16 "Processados " ++ numberToString (processedCount r)
                ++ u16 " ingredientes"));
        ("addedToShoppingList"%string, JNum (Z.of_nat (addedToShoppingList r)));
        ("ingredients"%string, JArr (JStr <$> ingredientList))].

(** [processNext()], with the [index] it closes over made an argument. *)
Equations? processNext (e : environment) (ingredientList : list jsstring)
  (index : nat) (r : reconciler) : reconciler * outcome
  by wf (length ingredientList - index)%nat lt :=
processNext e ingredientList index r with decide (length ingredientList <= index)%nat := {
  | left _ => (r, Responded 200 (summary ingredientList r))
  | right _ with processIngredient e (ingredientList !!! index) r := {
      | (r', Some err) => (r', Responded 500 (error_body err))
      | (r', None) => processNext e ingredientList (S index) r'
    }
  }.
Proof. lia. Qed.

(** The state a request starts from: [let processedCount = 0; let
    addedToShoppingList = 0;] over the database as it stands. *)
Definition start (s : sqlite) : reconciler :=
  {| processedCount := 0; addedToShoppingList := 0; db := s |}.

(** One reconciliation: the first call [processNext()] with [index = 0]. *)
Definition reconcile (e : environment) (ingredientList : list jsstring) (s : sqlite)
  : reconciler * outcome :=
  processNext e ingredientList 0 (start s).

(** "Lista de ingredientes é obrigatória" *)
Definition ingredients_required : jsstring :=
  u16 "Lista de ingredientes " ++ [233] ++ u16 " obrigat" ++ [243] ++ u16 "ria".

(** POST /api/recipes/:id/process-ingredients, on the [ingredients] field
    of the body.  A truthy value that is no string has no [split]: the
    call throws. *)
Definition post_process_ingredients `{CaseMapping} (e : environment)
  (ingredients : option json) (s : sqlite) : sqlite * outcome :=
  if negb (truthy ingredients) then (s, Responded 400 (error_body ingredients_required))
  else match ingredients with
       | Some (JStr raw) =>
           let (r, out) := reconcile e (ingredientList raw) s in (db r, out)
       | _ => (s, Threw)
       end.

(* ===================================================================== *)
(** ** The pantry upsert endpoint *)
(* ===================================================================== *)

(** "Ingrediente é obrigatório" *)
Definition ingredient_required : jsstring :=
  u16 "Ingrediente " ++ [233] ++ u16 " obrigat" ++ [243] ++ u16 "rio".

Definition pantry_updated : json :=
  JObj [("message"%string, JStr (u16 "Item da despensa atualizado com sucesso!"))].

(** POST /api/pantry of server.js, for a body whose [ingredient] field is
    absent ([None]) or a string; [has_item] is any field value. *)
Definition post_pantry (e : environment) (ingredient : option jsstring)
  (has_item : option json) (s : sqlite) : sqlite * outcome :=
  if negb (truthy (JStr <$> ingredient)) then (s, Responded 400 (error_body ingredient_required))
  else match db_run_insert_or_replace e (default [] ingredient)
                                      (if truthy has_item then 1 else 0) s with
       | (s', Some err) => (s', Responded 500 (error_body err))
       | (s', None) => (s', Responded 200 pantry_updated)
       end.

(** POST /api/pantry of server-production.js, for a body whose
    [ingredient] field is absent or a string and whose [has_item] field is
    a boolean, or absent or null ([None], bound as NULL). *)
Definition post_pantry_production (e : environment) (ingredient : option jsstring)
  (has_item : option bool) (p : postgres) : postgres * outcome :=
  if negb (truthy (JStr <$> ingredient)) then (p, Responded 400 (error_body ingredient_required))
  else match pool_query_upsert e (default [] ingredient) has_item p with
       | (p', Some err) => (p', Responded 500 (error_body err))
       | (p', None) => (p', Responded 200 pantry_updated)
       end.

(* ===================================================================== *)
(** ** Observations on stores and runs *)
(* ===================================================================== *)

(** The pantry records of a key. *)
Definition records (key : jsstring) (s : sqlite) : list pantry_row :=
  List.filter (has_key key) (pantry s).

(** An environment in which the driver never reports a failure. *)
Definition reliable (e : environment) : Prop := forall n, fault e n = None.

Definition statement_key (q : statement) : jsstring :=
  match q with
  | SelectPantry key | InsertPantry key _
  | InsertOrReplacePantry key _ | InsertOnConflictUpdatePantry key _ => key
  end.

Definition is_select (q : statement) : bool :=
  match q with SelectPantry _ => true | _ => false end.

Definition is_insert_of (key : jsstring) (q : statement) : bool :=
  match q with
  | InsertPantry key' _ => bool_decide (key' = key)
  | _ => false
  end.

(** How many INSERT statements for a key a database has been sent. *)
Definition inserts_of (key : jsstring) (s : sqlite) : nat :=
  length (List.filter (is_insert_of key) (issued s)).

(** The key a stored ingredient is compared under when case and
    surrounding white space are to be ignored. *)
Definition normalized `{CaseMapping} (key : jsstring) : jsstring :=
  toLowerCase (trim key).

(** The availability each variant of the pantry records for a key: no
    record, or the record's has_item (SQLite: any integer but 0 is true;
    PostgreSQL: NULL is [Some None]). *)
Definition sqlite_has_item (key : jsstring) (s : sqlite) : option (option bool) :=
  (fun row => Some (negb (row_has_item row =? 0)))
    <$> List.find (has_key key) (pantry s).

Definition postgres_has_item (key : jsstring) (p : postgres) : option (option bool) :=
  pg_has_item <$> List.find (pg_has_key key) (pg_pantry p).

Definition same_availability (s : sqlite) (p : postgres) : Prop :=
  forall key, sqlite_has_item key s = postgres_has_item key p.

(** The calls [processNext] makes to [processIngredient] for the
    ingredients still ahead, up to the first error: the loop without its
    index and its response. *)
Fixpoint processRest (e : environment) (rest : list jsstring) (r : reconciler)
  : reconciler * option jsstring :=
  match rest with
  | [] => (r, None)
  | ingredient :: rest' =>
      match processIngredient e ingredient r with
      | (r', Some err) => (r', Some err)
      | (r', None) => processRest e rest' r'
      end
  end.

Definition respond (ingredientList : list jsstring) (end_ : reconciler * option jsstring)
  : reconciler * outcome :=
  match end_ with
  | (r, None) => (r, Responded 200 (summary ingredientList r))
  | (r, Some err) => (r, Responded 500 (error_body err))
  end.

(* ===================================================================== *)
(** ** Sample data *)
(* ===================================================================== *)

Definition ovos : jsstring := u16 "ovos".
Definition arroz : jsstring := u16 "arroz".
Definition sal : jsstring := u16 "sal".
(** "feijão" *)
Definition feijao : jsstring := u16 "feij" ++ [227] ++ u16 "o".

(** A driver that never fails, with a clock that ticks at every call. *)
Definition quiet : environment :=
  {| fault := fun _ => None; current_timestamp := fun n => Z.of_nat n |}.

Definition busy : jsstring := u16 "SQLITE_BUSY: database is locked".

(** A driver that fails once, at the call numbered [n]. *)
Definition failing_at (n : nat) : environment :=
  {| fault := fun i => if (i =? n)%nat then Some busy else None;
     current_timestamp := fun i => Z.of_nat i |}.

Definition five : list jsstring := [u16 "a"; u16 "b"; u16 "c"; u16 "d"; u16 "e"].

Definition empty_db : sqlite := {| pantry := []; pantry_seq := 0; issued := [] |}.

Definition empty_pg : postgres :=
  {| pg_pantry := []; pantry_id_seq := 0; pg_issued := [] |}.

(* ===================================================================== *)
(** ** Lists: first match, matches, absence *)
(* ===================================================================== *)

Section Lookup.
Context {A : Type} (f : A -> bool).

Lemma find_none_existsb (l : list A) :
  List.find f l = None <-> existsb f l = false.
Proof.
  induction l as [|a l IH]; simpl; [tauto|].
  destruct (f a); simpl; [split; discriminate | exact IH].
Qed.

Lemma find_none_filter (l : list A) :
  List.find f l = None <-> List.filter f l = [].
Proof.
  induction l as [|a l IH]; simpl; [tauto|].
  destruct (f a); [split; discriminate | exact IH].
Qed.

Lemma find_app (l1 l2 : list A) :
  List.find f (l1 ++ l2) =
  match List.find f l1 with Some a => Some a | None => List.find f l2 end.
Proof.
  induction l1 as [|a l1 IH]; simpl; [reflexivity|].
  destruct (f a); [reflexivity | exact IH].
Qed.
End Lookup.

Lemma has_key_true key row : has_key key row = true <-> row_ingredient row = key.
Proof. unfold has_key. apply bool_decide_eq_true. Qed.

Lemma has_key_false key row : has_key key row = false <-> row_ingredient row <> key.
Proof. unfold has_key. apply bool_decide_eq_false. Qed.

(* ===================================================================== *)
(** ** The loop of [processNext] *)
(* ===================================================================== *)

(** The body of [processNext], as an equation. *)
Lemma processNext_eq e l i r :
  processNext e l i r =
  if decide (length l <= i)%nat then (r, Responded 200 (summary l r))
  else match processIngredient e (l !!! i) r with
       | (r', Some err) => (r', Responded 500 (error_body err))
       | (r', None) => processNext e l (S i) r'
       end.
Proof.
  simp processNext. destruct (decide (length l <= i)%nat); simpl; [reflexivity|].
  destruct (processIngredient e (l !!! i) r) as [r' [err|]]; simpl; reflexivity.
Qed.

(** From [index] on, the loop makes the calls of [processRest] on the
    ingredients that remain and answers according to how they end. *)
Lemma processNext_processRest e l i r :
  processNext e l i r = respond l (processRest e (drop i l) r).
Proof.
  remember (length l - i)%nat as n eqn:Hn.
  revert i r Hn. induction n as [|n IH]; intros i r Hn.
  - rewrite processNext_eq. destruct (decide (length l <= i)%nat) as [Hle|Hgt]; [|lia].
    rewrite drop_ge by lia. reflexivity.
  - rewrite processNext_eq. destruct (decide (length l <= i)%nat) as [Hle|Hgt]; [lia|].
    assert (Hlook : l !! i = Some (l !!! i)).
    { apply list_lookup_lookup_total_lt. lia. }
    rewrite (drop_S _ _ _ Hlook). simpl.
    destruct (processIngredient e (l !!! i) r) as [r' [err|]]; [reflexivity|].
    apply IH. lia.
Qed.

Lemma reconcile_processRest e l s :
  reconcile e l s = respond l (processRest e l (start s)).
Proof. unfold reconcile. rewrite processNext_processRest, drop_0. reflexivity. Qed.

(** A run over a list is a run over its first part, then, if that went
    through, over the rest. *)
Lemma processRest_app e l1 l2 r :
  processRest e (l1 ++ l2) r =
  match processRest e l1 r with
  | (r1, None) => processRest e l2 r1
  | failed => failed
  end.
Proof.
  revert r. induction l1 as [|x l1 IH]; intros r; simpl; [reflexivity|].
  destruct (processIngredient e x r) as [r' [err|]]; [reflexivity | apply IH].
Qed.

(* ===================================================================== *)
(** ** One ingredient *)
(* ===================================================================== *)

(** The record is there: one lookup, one more processed, nothing else. *)
Lemma processIngredient_found e x r row :
  fault e (length (issued (db r))) = None ->
  List.find (has_key x) (pantry (db r)) = Some row ->
  processIngredient e x r =
  ({| processedCount := S (processedCount r);
      addedToShoppingList := addedToShoppingList r;
      db := issue (SelectPantry x) (db r) |}, None).
Proof.
  intros Hf Hrow. unfold processIngredient, db_get. rewrite Hf, Hrow. reflexivity.
Qed.

(** The record is missing: a lookup, then the insert with has_item = 0. *)
Lemma processIngredient_missing e x r :
  fault e (length (issued (db r))) = None ->
  fault e (S (length (issued (db r)))) = None ->
  List.find (has_key x) (pantry (db r)) = None ->
  processIngredient e x r =
  ({| processedCount := S (processedCount r);
      addedToShoppingList := S (addedToShoppingList r);
      db := {| pantry := pantry (db r)
                         ++ [inserted_row e x 0 (issue (SelectPantry x) (db r))];
               pantry_seq := next_rowid (db r);
               issued := issued (db r) ++ [SelectPantry x; InsertPantry x 0] |} |},
   None).
Proof.
  intros Hf Hf' Hnone. unfold processIngredient, db_get. rewrite Hf, Hnone.
  unfold db_run_insert. simpl. rewrite length_app. simpl.
  replace (length (issued (db r)) + 1)%nat with (S (length (issued (db r)))) by lia.
  rewrite Hf'.
  apply find_none_existsb in Hnone. rewrite Hnone.
  rewrite <- app_assoc. reflexivity.
Qed.

(** What a step that reported no error has done. *)
Lemma processIngredient_ok e x r r' :
  processIngredient e x r = (r', None) ->
  processedCount r' = S (processedCount r) /\
  ((existsb (has_key x) (pantry (db r)) = true /\
    addedToShoppingList r' = addedToShoppingList r /\
    db r' = issue (SelectPantry x) (db r))
   \/
   (existsb (has_key x) (pantry (db r)) = false /\
    addedToShoppingList r' = S (addedToShoppingList r) /\
    db r' = {| pantry := pantry (db r)
                         ++ [inserted_row e x 0 (issue (SelectPantry x) (db r))];
               pantry_seq := next_rowid (db r);
               issued := issued (db r) ++ [SelectPantry x; InsertPantry x 0] |})).
Proof.
  unfold processIngredient, db_get.
  destruct (fault e (length (issued (db r)))) as [err|] eqn:Hf; [discriminate|].
  destruct (List.find (has_key x) (pantry (db r))) as [row|] eqn:Hrow.
  - intros [= <-]. simpl. split; [reflexivity|]. left.
    split; [|split; reflexivity].
    destruct (existsb (has_key x) (pantry (db r))) eqn:E; [reflexivity|].
    apply find_none_existsb in E. congruence.
  - unfold db_run_insert. simpl.
    destruct (fault e (length (issued (db r) ++ [SelectPantry x]))) as [err|];
      [discriminate|].
    pose proof Hrow as Hex. apply find_none_existsb in Hex. rewrite Hex.
    intros [= <-]. simpl. split; [reflexivity|]. right.
    split; [reflexivity|]. split; [reflexivity|].
    rewrite <- app_assoc. reflexivity.
Qed.

(** What a step that reported an error has done: statements, no change. *)
Lemma processIngredient_failed e x r r' err :
  processIngredient e x r = (r', Some err) ->
  processedCount r' = processedCount r /\
  addedToShoppingList r' = addedToShoppingList r /\
  pantry (db r') = pantry (db r) /\
  pantry_seq (db r') = pantry_seq (db r) /\
  (issued (db r') = issued (db r) ++ [SelectPantry x] \/
   issued (db r') = issued (db r) ++ [SelectPantry x; InsertPantry x 0]).
Proof.
  unfold processIngredient, db_get.
  destruct (fault e (length (issued (db r)))) as [err0|] eqn:Hf.
  { intros [= <- <-]. simpl. auto 6. }
  destruct (List.find (has_key x) (pantry (db r))) as [row|] eqn:Hrow; [discriminate|].
  unfold db_run_insert. simpl.
  destruct (fault e (length (issued (db r) ++ [SelectPantry x]))) as [err1|].
  { intros [= <- <-]. simpl. rewrite <- app_assoc. auto 6. }
  destruct (existsb (has_key x) (pantry (db r))); [|discriminate].
  intros [= <- <-]. simpl. rewrite <- app_assoc. auto 6.
Qed.

(* ===================================================================== *)
(** ** A run of the reconciler *)
(* ===================================================================== *)

Lemma records_app key s rows seq log :
  records key {| pantry := pantry s ++ rows; pantry_seq := seq; issued := log |}
  = records key s ++ List.filter (has_key key) rows.
Proof. unfold records. simpl. apply List.filter_app. Qed.

Lemma records_nil key s :
  records key s = [] <-> existsb (has_key key) (pantry s) = false.
Proof. unfold records. rewrite <- find_none_filter. apply find_none_existsb. Qed.

(** A run without error: every ingredient counted, the table extended by
    the rows added, each of them with has_item = 0 and a key of the list
    that was not in the table. *)
Lemma processRest_ok e l r r' :
  processRest e l r = (r', None) ->
  processedCount r' = (processedCount r + length l)%nat /\
  exists new qs,
    pantry (db r') = pantry (db r) ++ new /\
    addedToShoppingList r' = (addedToShoppingList r + length new)%nat /\
    Forall (fun row => row_has_item row = 0 /\ row_ingredient row ∈ l) new /\
    issued (db r') = issued (db r) ++ qs /\
    Forall (fun q => statement_key q ∈ l) qs /\
    length (List.filter is_select qs) = length l /\
    (forall x, x ∈ l -> existsb (has_key x) (pantry (db r')) = true).
Proof.
  revert r. induction l as [|x l IH]; intros r; simpl.
  - intros [= <-]. split; [lia|]. exists [], []. rewrite !app_nil_r.
    repeat split; auto; try lia. intros x Hx. inversion Hx.
  - destruct (processIngredient e x r) as [r1 [err|]] eqn:Hstep; [discriminate|].
    intros Hrest. destruct (IH _ Hrest) as (Hpc & new & qs & Hp & Ha & Hnew & Hq & Hqs & Hsel & Hin).
    apply processIngredient_ok in Hstep as [Hpc1 [(Hex & Ha1 & Hdb)|(Hex & Ha1 & Hdb)]].
    + split; [lia|]. exists new, (SelectPantry x :: qs).
      rewrite Hdb in Hp, Hq. simpl in Hp, Hq.
      split; [exact Hp|]. split; [lia|].
      split. { eapply Forall_impl; [exact Hnew|]. intros row [? ?]. split; [auto|]. by right. }
      split. { rewrite Hq, <- app_assoc. reflexivity. }
      split. { constructor; [by left|]. eapply Forall_impl; [exact Hqs|]. intros q ?. by right. }
      split. { simpl. lia. }
      intros y [->|Hy]%elem_of_cons; [|auto].
      rewrite Hp, existsb_app, Hex. reflexivity.
    + split; [lia|].
      exists (inserted_row e x 0 (issue (SelectPantry x) (db r)) :: new),
             (SelectPantry x :: InsertPantry x 0 :: qs).
      rewrite Hdb in Hp, Hq. simpl in Hp, Hq.
      split. { rewrite Hp, <- app_assoc. reflexivity. }
      split. { simpl. lia. }
      split. { constructor; [split; [reflexivity | by left]|].
               eapply Forall_impl; [exact Hnew|]. intros row [? ?]. split; [auto|]. by right. }
      split. { rewrite Hq, <- app_assoc. reflexivity. }
      split. { constructor; [by left|]. constructor; [by left|].
               eapply Forall_impl; [exact Hqs|]. intros q ?. by right. }
      split. { simpl. lia. }
      intros y [->|Hy]%elem_of_cons; [|auto].
      rewrite Hp, <- app_assoc, !existsb_app. simpl.
      unfold has_key at 2. simpl. rewrite bool_decide_eq_true_2 by reflexivity.
      apply orb_true_r.
Qed.

(** The records of one key over a run without error: untouched when the
    key was in the table, a single new record when the list asks for a
    key that was not, none otherwise; and as many INSERT statements. *)
Lemma processRest_records e l r r' key :
  processRest e l r = (r', None) ->
  (existsb (has_key key) (pantry (db r)) = true ->
     records key (db r') = records key (db r) /\
     inserts_of key (db r') = inserts_of key (db r)) /\
  (existsb (has_key key) (pantry (db r)) = false -> key ∈ l ->
     (exists row, records key (db r') = [row] /\ row_has_item row = 0) /\
     inserts_of key (db r') = S (inserts_of key (db r))) /\
  (existsb (has_key key) (pantry (db r)) = false -> key ∉ l ->
     records key (db r') = [] /\
     inserts_of key (db r') = inserts_of key (db r)).
Proof.
  revert r. induction l as [|x l IH]; intros r; simpl.
  - intros [= <-]. split; [auto|]. split.
    + intros _ Hin. inversion Hin.
    + intros Hex _. split; [by apply records_nil | reflexivity].
  - destruct (processIngredient e x r) as [r1 [err|]] eqn:Hstep; [discriminate|].
    intros Hrest. destruct (IH _ Hrest) as (IH1 & IH2 & IH3).
    apply processIngredient_ok in Hstep as [_ [(Hex & _ & Hdb)|(Hex & _ & Hdb)]].
    + (* x was found: the table is the same *)
      assert (Hp : pantry (db r1) = pantry (db r)) by (rewrite Hdb; reflexivity).
      assert (Hr : records key (db r1) = records key (db r))
        by (unfold records; rewrite Hp; reflexivity).
      assert (Hi : inserts_of key (db r1) = inserts_of key (db r)).
      { unfold inserts_of. rewrite Hdb. simpl. rewrite List.filter_app, length_app.
        simpl. lia. }
      rewrite Hp in IH1, IH2, IH3. rewrite Hr in IH1. rewrite Hi in IH1, IH2, IH3.
      split; [exact IH1|]. split.
      * intros Hno [->|Hin]%elem_of_cons; [congruence | auto].
      * intros Hno Hnin. apply IH3; [exact Hno|]. intros Hin. apply Hnin. by right.
    + (* x was inserted *)
      assert (Hp : pantry (db r1) = pantry (db r)
                   ++ [inserted_row e x 0 (issue (SelectPantry x) (db r))])
        by (rewrite Hdb; reflexivity).
      assert (Hi : inserts_of key (db r1)
                   = (inserts_of key (db r) + if bool_decide (x = key) then 1 else 0)%nat).
      { unfold inserts_of. rewrite Hdb. simpl. rewrite List.filter_app, length_app.
        simpl. destruct (bool_decide (x = key)); simpl; lia. }
      assert (Hr : records key (db r1)
                   = records key (db r)
                     ++ if bool_decide (x = key)
                        then [inserted_row e x 0 (issue (SelectPantry x) (db r))] else []).
      { unfold records. rewrite Hp, List.filter_app. simpl. unfold has_key at 2. simpl.
        reflexivity. }
      assert (Hex1 : existsb (has_key key) (pantry (db r1))
                     = existsb (has_key key) (pantry (db r)) || bool_decide (x = key)).
      { rewrite Hp, existsb_app. simpl. unfold has_key at 2. simpl.
        rewrite orb_false_r. reflexivity. }
      destruct (bool_decide (x = key)) eqn:Hxk.
      * apply bool_decide_eq_true in Hxk. subst x.
        rewrite Hex in Hex1. simpl in Hex1.
        destruct (IH1 Hex1) as [Hrec Hins]. rewrite Hr in Hrec. rewrite Hi in Hins.
        split; [congruence|]. split.
        -- intros _ _. apply records_nil in Hex. rewrite Hex in Hrec. simpl in Hrec.
           split; [|lia]. eexists. split; [exact Hrec | reflexivity].
        -- intros _ Hnin. exfalso. apply Hnin. by left.
      * apply bool_decide_eq_false in Hxk.
        rewrite orb_false_r in Hex1. rewrite app_nil_r in Hr.
        rewrite Hex1 in IH1, IH2, IH3. rewrite Hr in IH1.
        rewrite Hi, Nat.add_0_r in IH1, IH2, IH3.
        split; [exact IH1|]. split.
        -- intros Hno [->|Hin]%elem_of_cons; [congruence | auto].
        -- intros Hno Hnin. apply IH3; [exact Hno|]. intros Hin. apply Hnin. by right.
Qed.

(* ===================================================================== *)
(** ** Outcomes of a reconciliation *)
(* ===================================================================== *)

Lemma respond_ok l end_ r body :
  respond l end_ = (r, Responded 200 body) ->
  end_ = (r, None) /\ body = summary l r.
Proof.
  destruct end_ as [r0 [err|]]; simpl; intros [= <- <-]; auto.
Qed.

Lemma reconcile_ok e l s r body :
  reconcile e l s = (r, Responded 200 body) ->
  processRest e l (start s) = (r, None) /\ body = summary l r.
Proof. rewrite reconcile_processRest. apply respond_ok. Qed.

Lemma processRest_ok_app e l1 l2 r r' :
  processRest e (l1 ++ l2) r = (r', None) ->
  exists r1, processRest e l1 r = (r1, None) /\ processRest e l2 r1 = (r', None).
Proof.
  rewrite processRest_app.
  destruct (processRest e l1 r) as [r1 [err|]]; [discriminate|]. eauto.
Qed.

Lemma processIngredient_reliable e x r :
  reliable e -> exists r', processIngredient e x r = (r', None).
Proof.
  intros He.
  destruct (List.find (has_key x) (pantry (db r))) as [row|] eqn:Hrow.
  - eexists. eapply processIngredient_found; [apply He | exact Hrow].
  - eexists. apply processIngredient_missing; [apply He | apply He | exact Hrow].
Qed.

(** With a driver that does not fail the run reaches the end of the list. *)
Lemma processRest_reliable e l r :
  reliable e -> exists r', processRest e l r = (r', None).
Proof.
  intros He. revert r. induction l as [|x l IH]; intros r; simpl; [eauto|].
  destruct (processIngredient_reliable e x r He) as [r1 ->]. apply IH.
Qed.

Lemma reconcile_reliable e l s :
  reliable e -> exists r', reconcile e l s = (r', Responded 200 (summary l r')).
Proof.
  intros He. destruct (processRest_reliable e l (start s) He) as [r' Hr].
  exists r'. rewrite reconcile_processRest, Hr. reflexivity.
Qed.

Lemma reconcile_of_processRest e l s r :
  processRest e l (start s) = (r, None) ->
  reconcile e l s = (r, Responded 200 (summary l r)).
Proof. intros Hr. rewrite reconcile_processRest, Hr. reflexivity. Qed.

Lemma member_found key (rows : list pantry_row) row :
  row ∈ rows -> row_ingredient row = key -> existsb (has_key key) rows = true.
Proof.
  intros Hin Hkey. apply existsb_exists. exists row.
  split; [by apply list_elem_of_In | by apply has_key_true].
Qed.

(* ===================================================================== *)
(** ** Duplicates, single steps, failures, repetition *)
(* ===================================================================== *)

(** C1.  A key that occurs twice in the list and is not in the pantry is
    inserted once.  Where a reconciliation that goes through meets the
    key for the first time the table has no record of it, and the step
    inserts one (has_item = 0) and counts the ingredient as processed and
    as added; where it meets the key again the step finds that record,
    counts the ingredient as processed only and leaves the table as it is;
    at the end the key has that one record and one INSERT was sent for it.
    With a driver that does not fail every reconciliation goes through.
    In particular [ovos; ovos] against an empty pantry ends with
    processedCount = 2, addedToShoppingList = 1 and one record for ovos. *)
Theorem duplicate_inserted_once :
  (forall e l1 l2 l3 key s r' body,
     key ∉ l1 ->
     records key s = [] ->
     reconcile e (l1 ++ key :: l2 ++ key :: l3) s = (r', Responded 200 body) ->
     exists r1 r2 r3 r4 row,
       (* the first occurrence creates the record *)
       reconcile e l1 s = (r1, Responded 200 (summary l1 r1)) /\
       records key (db r1) = [] /\
       processIngredient e key r1 = (r2, None) /\
       processedCount r2 = S (processedCount r1) /\
       addedToShoppingList r2 = S (addedToShoppingList r1) /\
       records key (db r2) = [row] /\ row_has_item row = 0 /\
       (* a later occurrence finds it *)
       reconcile e (l1 ++ key :: l2) s
         = (r3, Responded 200 (summary (l1 ++ key :: l2) r3)) /\
       processIngredient e key r3 = (r4, None) /\
       processedCount r4 = S (processedCount r3) /\
       addedToShoppingList r4 = addedToShoppingList r3 /\
       pantry (db r4) = pantry (db r3) /\
       (* one record, one INSERT *)
       records key (db r') = [row] /\
       inserts_of key (db r') = S (inserts_of key s))
  /\
  (* with a driver that does not fail the reconciliation goes through *)
  (forall e l s,
     reliable e ->
     exists r', reconcile e l s = (r', Responded 200 (summary l r')))
  /\
  (forall e s,
     reliable e -> pantry s = [] ->
     exists r' row,
       reconcile e [ovos; ovos] s = (r', Responded 200 (summary [ovos; ovos] r')) /\
       processedCount r' = 2%nat /\
       addedToShoppingList r' = 1%nat /\
       records ovos (db r') = [row]).
Proof.
  match goal with |- ?general /\ _ => assert (General : general) end.
  { intros e l1 l2 l3 key s r' body Hfirst Hnone Hrun.
    apply reconcile_ok in Hrun as [Hrun _].
    apply processRest_ok_app in Hrun as (r1 & Hl1 & Hrun). simpl in Hrun.
    destruct (processIngredient e key r1) as [r2 [err|]] eqn:Hstep1; [discriminate|].
    apply processRest_ok_app in Hrun as (r3 & Hl2 & Hrun). simpl in Hrun.
    destruct (processIngredient e key r3) as [r4 [err|]] eqn:Hstep2; [discriminate|].
    (* before the first occurrence *)
    apply records_nil in Hnone.
    destruct (processRest_records e l1 _ _ key Hl1) as (_ & _ & Hl1none).
    destruct (Hl1none Hnone Hfirst) as [Hrec1 Hins1].
    pose proof Hrec1 as Hex1. apply records_nil in Hex1.
    (* the first occurrence *)
    destruct (processIngredient_ok _ _ _ _ Hstep1)
      as [Hpc2 [(Hex & _)|(_ & Ha2 & Hdb2)]]; [congruence|].
    set (row := inserted_row e key 0 (issue (SelectPantry key) (db r1))) in *.
    assert (Hrec2 : records key (db r2) = [row]).
    { rewrite Hdb2, records_app, Hrec1. simpl. unfold has_key. simpl.
      rewrite bool_decide_eq_true_2 by reflexivity. reflexivity. }
    assert (Hins2 : inserts_of key (db r2) = S (inserts_of key s)).
    { unfold inserts_of in *. rewrite Hdb2. simpl. rewrite List.filter_app, length_app.
      simpl. rewrite bool_decide_eq_true_2 by reflexivity. simpl. simpl in Hins1. lia. }
    assert (Hex2 : existsb (has_key key) (pantry (db r2)) = true).
    { destruct (existsb (has_key key) (pantry (db r2))) eqn:E; [reflexivity|].
      apply records_nil in E. congruence. }
    (* up to the later occurrence *)
    destruct (processRest_records e l2 _ _ key Hl2) as (Hkeep2 & _ & _).
    destruct (Hkeep2 Hex2) as [Hrec3 Hins3].
    assert (Hex3 : existsb (has_key key) (pantry (db r3)) = true).
    { destruct (existsb (has_key key) (pantry (db r3))) eqn:E; [reflexivity|].
      apply records_nil in E. congruence. }
    destruct (processIngredient_ok _ _ _ _ Hstep2)
      as [Hpc4 [(_ & Ha4 & Hdb4)|(Hex & _)]]; [|congruence].
    assert (Hp4 : pantry (db r4) = pantry (db r3)) by (rewrite Hdb4; reflexivity).
    assert (Hins4 : inserts_of key (db r4) = inserts_of key (db r3)).
    { unfold inserts_of. rewrite Hdb4. simpl. rewrite List.filter_app, length_app.
      simpl. lia. }
    (* to the end of the list *)
    destruct (processRest_records e l3 _ _ key Hrun) as (Hkeep3 & _ & _).
    rewrite Hp4 in Hkeep3. destruct (Hkeep3 Hex3) as [Hrec' Hins'].
    exists r1, r2, r3, r4, row.
    split; [by apply reconcile_of_processRest|].
    split; [exact Hrec1|]. split; [exact Hstep1|]. split; [exact Hpc2|].
    split; [exact Ha2|]. split; [exact Hrec2|]. split; [reflexivity|].
    split.
    { apply reconcile_of_processRest. rewrite processRest_app, Hl1. simpl.
      rewrite Hstep1. exact Hl2. }
    split; [exact Hstep2|]. split; [exact Hpc4|]. split; [exact Ha4|].
    split; [exact Hp4|]. split.
    - rewrite Hrec'. unfold records. rewrite Hp4. fold (records key (db r3)). congruence.
    - lia. }
  split; [exact General|]. split; [apply reconcile_reliable|].
  intros e s He Hempty.
  destruct (reconcile_reliable e [ovos; ovos] s He) as [r' Hrun].
  assert (Hnone : records ovos s = []) by (unfold records; rewrite Hempty; reflexivity).
  destruct (General e [] [] [] ovos s r' _ (not_elem_of_nil _) Hnone Hrun)
    as (r1 & r2 & r3 & r4 & row & H1 & _ & H2 & Hpc2 & Ha2 & _ & _
        & H3 & H4 & Hpc4 & Ha4 & _ & Hrec & _).
  apply reconcile_ok in H1 as [H1 _]. simpl in H1. injection H1 as <-.
  apply reconcile_ok in H3 as [H3 _]. simpl in H3. rewrite H2 in H3. injection H3 as <-.
  destruct (reconcile_ok _ _ _ _ _ Hrun) as [Hrun' _].
  simpl in Hrun'. rewrite H2, H4 in Hrun'. injection Hrun' as <-.
  exists r4, row. split; [exact Hrun|]. simpl in *. split; [lia|]. split; [lia|]. exact Hrec.
Qed.

Lemma existsb_find_some {A} (f : A -> bool) (l : list A) :
  existsb f l = true -> exists a, List.find f l = Some a.
Proof.
  intros Hex. destruct (List.find f l) as [a|] eqn:Hfind; [eauto|].
  apply find_none_existsb in Hfind. congruence.
Qed.

(** C2.  What [processIngredient] does with one ingredient when the
    driver does not fail: if the pantry has a record with the key, whatever
    its has_item, the ingredient is counted as processed and the table and
    its counter stay as they are; if it has none, a record with that key
    and has_item = 0 is appended and the ingredient is counted as processed
    and as added.  [processNext] takes the ingredients in the order of the
    list.  In particular [arroz; feijao] against a pantry with arroz
    (has_item = 1) and without feijao ends with processedCount = 2 and
    addedToShoppingList = 1, feijao appended with has_item = 0 and the
    records of arroz untouched. *)
Theorem processIngredient_reconciles :
  (* a record with the key exists, whatever its has_item *)
  (forall e ingredient r row,
     fault e (length (issued (db r))) = None ->
     row ∈ pantry (db r) -> row_ingredient row = ingredient ->
     exists r',
       processIngredient e ingredient r = (r', None) /\
       processedCount r' = S (processedCount r) /\
       addedToShoppingList r' = addedToShoppingList r /\
       pantry (db r') = pantry (db r) /\
       pantry_seq (db r') = pantry_seq (db r))
  /\
  (* no record with the key *)
  (forall e ingredient r,
     fault e (length (issued (db r))) = None ->
     fault e (S (length (issued (db r)))) = None ->
     records ingredient (db r) = [] ->
     exists r' row,
       processIngredient e ingredient r = (r', None) /\
       processedCount r' = S (processedCount r) /\
       addedToShoppingList r' = S (addedToShoppingList r) /\
       pantry (db r') = pantry (db r) ++ [row] /\
       row_ingredient row = ingredient /\ row_has_item row = 0)
  /\
  (* the ingredients are taken in the order of the list *)
  (forall e l i r,
     (i < length l)%nat ->
     processNext e l i r =
     match processIngredient e (l !!! i) r with
     | (r', Some err) => (r', Responded 500 (error_body err))
     | (r', None) => processNext e l (S i) r'
     end)
  /\
  (forall e s row,
     reliable e ->
     row ∈ pantry s -> row_ingredient row = arroz -> row_has_item row = 1 ->
     records feijao s = [] ->
     exists r' new,
       reconcile e [arroz; feijao] s
         = (r', Responded 200 (summary [arroz; feijao] r')) /\
       processedCount r' = 2%nat /\
       addedToShoppingList r' = 1%nat /\
       pantry (db r') = pantry s ++ [new] /\
       row_ingredient new = feijao /\ row_has_item new = 0 /\
       records arroz (db r') = records arroz s).
Proof.
  assert (Found : forall e ingredient r row,
     fault e (length (issued (db r))) = None ->
     row ∈ pantry (db r) -> row_ingredient row = ingredient ->
     processIngredient e ingredient r =
       ({| processedCount := S (processedCount r);
           addedToShoppingList := addedToShoppingList r;
           db := issue (SelectPantry ingredient) (db r) |}, None)).
  { intros e x r row Hf Hin Hkey.
    destruct (existsb_find_some _ _ (member_found _ _ _ Hin Hkey)) as [row' Hrow'].
    eapply processIngredient_found; eauto. }
  split; [|split; [|split]].
  - intros e x r row Hf Hin Hkey. eexists. split; [eapply Found; eauto|]. auto.
  - intros e x r Hf Hf' Hnone.
    apply records_nil, find_none_existsb in Hnone.
    eexists. eexists. split; [apply processIngredient_missing; assumption|].
    simpl. auto 6.
  - intros e l i r Hi. rewrite processNext_eq at 1.
    destruct (decide (length l <= i)%nat); [lia | reflexivity].
  - intros e s row He Hin Hkey Hhas Hnone.
    rewrite reconcile_processRest. simpl.
    rewrite (Found e arroz (start s) row (He _) Hin Hkey).
    apply records_nil, find_none_existsb in Hnone.
    rewrite processIngredient_missing; [| apply He | apply He | exact Hnone ].
    simpl. eexists. eexists. split; [reflexivity|]. simpl.
    repeat (split; [reflexivity|]).
    unfold records. cbn [db pantry]. rewrite List.filter_app. cbn [List.filter].
    rewrite (proj2 (has_key_false arroz _)) by (simpl; discriminate).
    apply app_nil_r.
Qed.

(** C4.  When the first [k] ingredients are processed without failure and
    the driver fails on the ingredient at position [k], the reconciliation
    answers with the error (status 500) and never with the summary; the
    table is the one the first [k] ingredients left, their inserts
    included; and the statements sent are about the ingredients up to
    position [k] only, with [k + 1] lookups in all. *)
Theorem storage_failure_aborts e l k s rk body r' err :
  (k < length l)%nat ->
  reconcile e (take k l) s = (rk, Responded 200 body) ->
  processIngredient e (l !!! k) rk = (r', Some err) ->
  (* the failure is what the caller gets, not the summary *)
  reconcile e l s = (r', Responded 500 (error_body err)) /\
  (forall r'' body', reconcile e l s <> (r'', Responded 200 body')) /\
  (* the table is the one the first k ingredients left: no rollback *)
  pantry (db r') = pantry (db rk) /\
  (exists new, pantry (db r') = pantry s ++ new /\
               length new = addedToShoppingList r') /\
  (forall x, x ∈ take k l -> records x (db r') <> []) /\
  (* nothing is asked of the store for the ingredients after position k *)
  (exists qs, issued (db r') = issued s ++ qs /\
              Forall (fun q => statement_key q ∈ take (S k) l) qs /\
              length (List.filter is_select qs) = S k).
Proof.
  intros Hk Hprefix Hstep.
  apply reconcile_ok in Hprefix as [Hprefix _].
  assert (Hlook : l !! k = Some (l !!! k)) by (apply list_lookup_lookup_total_lt; lia).
  assert (Hsplit : l = take k l ++ (l !!! k) :: drop (S k) l).
  { rewrite <- (drop_S _ _ _ Hlook). symmetry. apply take_drop. }
  assert (Hrun : reconcile e l s = (r', Responded 500 (error_body err))).
  { rewrite reconcile_processRest. rewrite Hsplit at 2.
    rewrite processRest_app, Hprefix. simpl. rewrite Hstep. reflexivity. }
  destruct (processRest_ok _ _ _ _ Hprefix)
    as (_ & new & qs & Hp & Ha & _ & Hq & Hqs & Hsel & Hin).
  destruct (processIngredient_failed _ _ _ _ _ Hstep) as (_ & Ha' & Hp' & _ & Hq').
  simpl in Hp, Ha, Hq.
  split; [exact Hrun|]. split; [rewrite Hrun; congruence|].
  split; [exact Hp'|]. split; [exists new; split; [congruence | lia]|].
  split.
  { intros x Hx Hnil. apply records_nil in Hnil. rewrite Hp' in Hnil.
    rewrite (Hin x Hx) in Hnil. discriminate. }
  assert (Hmono : forall q, statement_key q ∈ take k l -> statement_key q ∈ take (S k) l).
  { intros q Hq0. rewrite (take_S_r _ _ _ Hlook). apply elem_of_app. by left. }
  assert (Hlast : (l !!! k) ∈ take (S k) l).
  { rewrite (take_S_r _ _ _ Hlook). apply elem_of_app. right. by left. }
  assert (Hlen : length (take k l) = k) by (rewrite length_take; lia).
  destruct Hq' as [Hq'|Hq'].
  - exists (qs ++ [SelectPantry (l !!! k)]).
    split; [rewrite Hq', Hq, <- app_assoc; reflexivity|]. split.
    + apply Forall_app. split; [eapply Forall_impl; eauto|]. by constructor.
    + rewrite List.filter_app, length_app. simpl. lia.
  - exists (qs ++ [SelectPantry (l !!! k); InsertPantry (l !!! k) 0]).
    split; [rewrite Hq', Hq, <- app_assoc; reflexivity|]. split.
    + apply Forall_app. split; [eapply Forall_impl; eauto|]. by repeat constructor.
    + rewrite List.filter_app, length_app. simpl. lia.
Qed.

(** C7.  After a reconciliation that went through, a second one of the
    same list on the database it left inserts nothing: its counter of
    additions stays 0 and the table is unchanged, whatever the driver does;
    any summary it sends reports addedToShoppingList = 0; and with a
    driver that does not fail it does send the summary. *)
Theorem second_reconciliation_adds_nothing e e' l s r1 body1 :
  reconcile e l s = (r1, Responded 200 body1) ->
  (* whatever the driver does the second time, nothing is inserted *)
  addedToShoppingList (fst (reconcile e' l (db r1))) = 0%nat /\
  pantry (db (fst (reconcile e' l (db r1)))) = pantry (db r1) /\
  (forall r2 body2,
     reconcile e' l (db r1) = (r2, Responded 200 body2) ->
     field "addedToShoppingList" body2 = Some (JNum 0)) /\
  (* and with a driver that does not fail the summary is returned *)
  (reliable e' ->
     exists r2, reconcile e' l (db r1) = (r2, Responded 200 (summary l r2)) /\
                field "addedToShoppingList" (summary l r2) = Some (JNum 0) /\
                processedCount r2 = length l).
Proof.
  intros Hfirst. apply reconcile_ok in Hfirst as [Hfirst _].
  destruct (processRest_ok _ _ _ _ Hfirst) as (_ & _ & _ & _ & _ & _ & _ & _ & _ & Hall).
  (* every step of the second run finds its record *)
  assert (Hsecond : forall rest r,
            (forall x, x ∈ rest -> existsb (has_key x) (pantry (db r)) = true) ->
            addedToShoppingList (fst (processRest e' rest r)) = addedToShoppingList r /\
            pantry (db (fst (processRest e' rest r))) = pantry (db r)).
  { induction rest as [|x rest IH]; intros r Hin; simpl; [auto|].
    destruct (processIngredient e' x r) as [r' [err|]] eqn:Hstep; simpl.
    - apply processIngredient_failed in Hstep as (_ & ? & ? & _). auto.
    - apply processIngredient_ok in Hstep as [_ [(_ & Ha & Hdb)|(Hex & _)]].
      + assert (Hp : pantry (db r') = pantry (db r)) by (rewrite Hdb; reflexivity).
        destruct (IH r') as [IHa IHp].
        { intros y Hy. rewrite Hp. apply Hin. by right. }
        split; congruence.
      + rewrite Hin in Hex by (by left). discriminate. }
  destruct (Hsecond l (start (db r1)) Hall) as [Ha Hp]. simpl in Ha, Hp.
  assert (Hfst : fst (reconcile e' l (db r1)) = fst (processRest e' l (start (db r1)))).
  { rewrite reconcile_processRest.
    destruct (processRest e' l (start (db r1))) as [r2 [err|]]; reflexivity. }
  rewrite Hfst. split; [exact Ha|]. split; [exact Hp|]. split.
  - intros r2 body2 Hrun. rewrite Hrun in Hfst. simpl in Hfst.
    apply reconcile_ok in Hrun as [_ ->]. simpl. rewrite Hfst, Ha. reflexivity.
  - intros He. destruct (reconcile_reliable e' l (db r1) He) as [r2 Hrun].
    exists r2. split; [exact Hrun|].
    rewrite Hrun in Hfst. simpl in Hfst.
    apply reconcile_ok in Hrun as [Hrun _].
    apply processRest_ok in Hrun as [Hpc _]. simpl in Hpc.
    split; [simpl; rewrite Hfst, Ha; reflexivity | exact Hpc].
Qed.

(* ===================================================================== *)
(** ** The process-ingredients endpoint *)
(* ===================================================================== *)

(** C3, as the code has it.  A request answered with status 200 carried a
    string, and the body is the object with the fields [message],
    [addedToShoppingList] and [ingredients]: the message is the text
    "Processados n ingredientes" with n the length of the normalized list,
    addedToShoppingList is the number of rows the pantry gained, and
    ingredients is the normalized list. *)
Theorem summary_of_successful_call `{CaseMapping} e ingredients s s' body :
  post_process_ingredients e ingredients s = (s', Responded 200 body) ->
  exists raw,
    ingredients = Some (JStr raw) /\
    body = JObj [("message"%string,
                   JStr (u16 "Processados "
                         ++ numberToString (length (ingredientList raw))
                         ++ u16 " ingredientes"));
                 ("addedToShoppingList"%string,
                   JNum (Z.of_nat (length (pantry s') - length (pantry s))));
                 ("ingredients"%string, JArr (JStr <$> ingredientList raw))].
Proof.
  unfold post_process_ingredients.
  destruct (truthy ingredients); simpl; [|discriminate].
  destruct ingredients as [[| | |raw| |]|]; try discriminate.
  destruct (reconcile e (ingredientList raw) s) as [r out] eqn:Hrun.
  intros [= <- ->]. exists raw. split; [reflexivity|].
  apply reconcile_ok in Hrun as [Hrun ->].
  destruct (processRest_ok _ _ _ _ Hrun) as (Hpc & new & qs & Hp & Ha & _).
  simpl in Hpc, Hp, Ha. unfold summary. rewrite Hpc, Ha, Hp, length_app.
  repeat f_equal. lia.
Qed.

(** The summary of a successful call has no field [processedCount]: the
    count is part of the text of [message]. *)
Lemma summary_has_no_processedCount_field :
  exists s' body,
    post_process_ingredients quiet (Some (JStr (u16 "ovos, ovos"))) empty_db
      = (s', Responded 200 body) /\
    field "processedCount" body = None /\
    field "message" body = Some (JStr (u16 "Processados 2 ingredientes")).
Proof. eexists. eexists. split; [vm_compute; reflexivity|]. split; reflexivity. Qed.

(** C8.  A request whose [ingredients] field is absent, the empty string
    or null is answered with status 400, and the database is returned as
    it was: no row changed and no statement issued. *)
Theorem missing_ingredients_rejected `{CaseMapping} e s :
  post_process_ingredients e None s
    = (s, Responded 400 (error_body ingredients_required)) /\
  post_process_ingredients e (Some (JStr [])) s
    = (s, Responded 400 (error_body ingredients_required)) /\
  post_process_ingredients e (Some JNull) s
    = (s, Responded 400 (error_body ingredients_required)).
Proof. repeat split. Qed.

(* ===================================================================== *)
(** ** The upsert endpoint, in both variants *)
(* ===================================================================== *)

Lemma filter_out_filter {A} (f : A -> bool) (l : list A) :
  List.filter f (List.filter (fun a => negb (f a)) l) = [].
Proof.
  induction l as [|a l IH]; simpl; [reflexivity|].
  destruct (f a) eqn:E; simpl; [exact IH | rewrite E; exact IH].
Qed.

Lemma find_filter_other {A} (f g : A -> bool) (l : list A) :
  (forall a, f a = true -> g a = true) ->
  List.find f (List.filter g l) = List.find f l.
Proof.
  intros Hfg. induction l as [|a l IH]; simpl; [reflexivity|].
  destruct (g a) eqn:Eg; simpl.
  - destruct (f a); [reflexivity | exact IH].
  - destruct (f a) eqn:Ef; [rewrite (Hfg a Ef) in Eg; discriminate | exact IH].
Qed.

Lemma row_id_bound (rows : list pantry_row) row :
  row ∈ rows -> row_id row <= foldr Z.max 0 (row_id <$> rows).
Proof.
  induction 1 as [row rows | row row' rows Hin IH]; rewrite fmap_cons; simpl; lia.
Qed.

Lemma truthy_key key : key <> [] -> truthy (JStr <$> Some key) = true.
Proof. intros Hkey. simpl. by rewrite bool_decide_eq_false_2. Qed.

(** What INSERT OR REPLACE leaves when the driver does not fail. *)
Lemma post_pantry_ok e key has_item s :
  key <> [] -> fault e (length (issued s)) = None ->
  post_pantry e (Some key) has_item s =
  ({| pantry := List.filter (fun row => negb (has_key key row)) (pantry s)
                ++ [inserted_row e key (if truthy has_item then 1 else 0) s];
      pantry_seq := next_rowid s;
      issued := issued s ++ [InsertOrReplacePantry key (if truthy has_item then 1 else 0)] |},
   Responded 200 pantry_updated).
Proof.
  intros Hkey Hf. unfold post_pantry. rewrite (truthy_key _ Hkey). simpl.
  unfold db_run_insert_or_replace. rewrite Hf. reflexivity.
Qed.

Lemma records_replaced key rows row seq log :
  row_ingredient row = key ->
  records key {| pantry := List.filter (fun row => negb (has_key key row)) rows ++ [row];
                 pantry_seq := seq; issued := log |} = [row].
Proof.
  intros Hrow. unfold records. simpl. rewrite List.filter_app, filter_out_filter.
  simpl. apply has_key_true in Hrow. rewrite Hrow. reflexivity.
Qed.

(** C9.  An upsert of server.js whose [has_item] field is absent or falsy
    stores, when the driver does not fail, a single record for the key
    with has_item = 0, which is not the default the table declares. *)
Theorem upsert_without_has_item_stores_false e key has_item s :
  key <> [] ->
  truthy has_item = false ->
  fault e (length (issued s)) = None ->
  exists s' row,
    post_pantry e (Some key) has_item s = (s', Responded 200 pantry_updated) /\
    records key s' = [row] /\
    row_has_item row = 0 /\
    row_has_item row <> has_item_default.
Proof.
  intros Hkey Hfalsy Hf. rewrite (post_pantry_ok _ _ _ _ Hkey Hf), Hfalsy.
  eexists. eexists. split; [reflexivity|].
  split; [apply records_replaced; reflexivity|].
  split; [reflexivity | discriminate].
Qed.

Lemma pg_has_key_true key row : pg_has_key key row = true <-> pg_ingredient row = key.
Proof. unfold pg_has_key. apply bool_decide_eq_true. Qed.

Lemma pg_has_key_update k key has row :
  pg_has_key k (update_has_item key has row) = pg_has_key k row.
Proof. unfold update_has_item. destruct (pg_has_key key row); reflexivity. Qed.

(** DO UPDATE keeps every row in its place. *)
Lemma find_update k key has (rows : list pg_row) :
  List.find (pg_has_key k) (update_has_item key has <$> rows)
  = update_has_item key has <$> List.find (pg_has_key k) rows.
Proof.
  induction rows as [|row rows IH]; [reflexivity|].
  rewrite fmap_cons. simpl. rewrite pg_has_key_update.
  destruct (pg_has_key k row); [reflexivity | exact IH].
Qed.

Lemma find_has_key key (rows : list pg_row) row :
  List.find (pg_has_key key) rows = Some row -> pg_ingredient row = key.
Proof. intros Hfind. apply find_some in Hfind as [_ Hkey]. by apply pg_has_key_true. Qed.

Lemma pool_query_upsert_ok e key has p :
  fault e (length (pg_issued p)) = None ->
  exists p',
    pool_query_upsert e key has p = (p', None) /\
    (forall k, postgres_has_item k p' =
       if bool_decide (k = key) then Some has else postgres_has_item k p) /\
    (forall old, List.find (pg_has_key key) (pg_pantry p) = Some old ->
       pg_pantry p' = update_has_item key has <$> pg_pantry p).
Proof.
  intros Hf. unfold pool_query_upsert. rewrite Hf.
  destruct (existsb (pg_has_key key) (pg_pantry p)) eqn:Hex.
  - eexists. split; [reflexivity|]. split; [|reflexivity].
    intros k. unfold postgres_has_item. simpl.
    rewrite find_update.
    destruct (existsb_find_some _ _ Hex) as [old Hold].
    destruct (bool_decide (k = key)) eqn:Hk.
    + apply bool_decide_eq_true in Hk. subst k. rewrite Hold. simpl.
      unfold update_has_item.
      rewrite (proj2 (pg_has_key_true _ _) (find_has_key _ _ _ Hold)). reflexivity.
    + apply bool_decide_eq_false in Hk.
      destruct (List.find (pg_has_key k) (pg_pantry p)) as [row|] eqn:Hrow; [|reflexivity].
      simpl. unfold update_has_item.
      destruct (pg_has_key key row) eqn:Hkr; [|reflexivity].
      apply pg_has_key_true in Hkr. apply find_has_key in Hrow. congruence.
  - eexists. split; [reflexivity|]. split.
    + intros k. unfold postgres_has_item. cbn [pg_pantry]. rewrite find_app.
      cbn [List.find]. unfold pg_has_key at 2. cbn [pg_ingredient].
      destruct (decide (k = key)) as [->|Hne].
      * apply find_none_existsb in Hex. rewrite Hex.
        rewrite !bool_decide_eq_true_2 by reflexivity. reflexivity.
      * rewrite !bool_decide_eq_false_2 by congruence.
        destruct (List.find (pg_has_key k) (pg_pantry p)); reflexivity.
    + intros old Hold. apply find_none_existsb in Hex. congruence.
Qed.

Lemma sqlite_has_item_replaced e key has s k :
  sqlite_has_item k
    {| pantry := List.filter (fun row => negb (has_key key row)) (pantry s)
                 ++ [inserted_row e key has s];
       pantry_seq := next_rowid s;
       issued := issued s ++ [InsertOrReplacePantry key has] |}
  = if bool_decide (k = key) then Some (Some (negb (has =? 0)))
    else sqlite_has_item k s.
Proof.
  unfold sqlite_has_item. cbn [pantry]. rewrite find_app. cbn [List.find].
  destruct (decide (k = key)) as [->|Hne].
  - rewrite bool_decide_eq_true_2 by reflexivity.
    assert (Hnone : List.find (has_key key)
              (List.filter (fun row => negb (has_key key row)) (pantry s)) = None)
      by apply find_none_filter, filter_out_filter.
    rewrite Hnone.
    rewrite (proj2 (has_key_true key (inserted_row e key has s))) by reflexivity.
    reflexivity.
  - rewrite bool_decide_eq_false_2 by exact Hne.
    rewrite (proj2 (has_key_false k (inserted_row e key has s)))
      by (simpl; congruence).
    rewrite find_filter_other.
    + destruct (List.find (has_key k) (pantry s)); reflexivity.
    + intros row Hrow. apply has_key_true in Hrow.
      apply negb_true_iff, has_key_false. congruence.
Qed.

(** C10.  From databases that record the same availability for every
    key, an upsert of a key with a boolean has_item goes through in both
    variants and leaves databases that again record the same availability
    for every key, the one sent for the key of the request.  SQLite ends
    with a single row for the key, stamped at this call, with an identifier
    above every identifier of the table before, the former rows of the key
    gone; PostgreSQL keeps the row of the key with its identifier and its
    timestamp, and only has_item changes. *)
Theorem upsert_variants_agree e e' key b s p :
  key <> [] ->
  same_availability s p ->
  fault e (length (issued s)) = None ->
  fault e' (length (pg_issued p)) = None ->
  exists s' p',
    post_pantry e (Some key) (Some (JBool b)) s = (s', Responded 200 pantry_updated) /\
    post_pantry_production e' (Some key) (Some b) p
      = (p', Responded 200 pantry_updated) /\
    same_availability s' p' /\
    sqlite_has_item key s' = Some (Some b) /\
    (* SQLite: the rows of the key give way to one new row *)
    (exists row,
       records key s' = [row] /\
       row_created_at row = current_timestamp e (length (issued s)) /\
       forall old, old ∈ pantry s ->
                   row_id old < row_id row /\
                   (row_ingredient old = key -> old ∉ pantry s')) /\
    (* PostgreSQL: the row of the key is updated where it stands *)
    (forall old, List.find (pg_has_key key) (pg_pantry p) = Some old ->
       List.find (pg_has_key key) (pg_pantry p') = Some (set_has_item (Some b) old) /\
       pg_id <$> pg_pantry p' = pg_id <$> pg_pantry p /\
       pg_created_at <$> pg_pantry p' = pg_created_at <$> pg_pantry p).
Proof.
  intros Hkey Hsame Hf Hf'.
  rewrite (post_pantry_ok _ _ _ _ Hkey Hf).
  destruct (pool_query_upsert_ok e' key (Some b) p Hf') as (p' & Hp' & Hview & Hplace).
  unfold post_pantry_production. rewrite (truthy_key _ Hkey). simpl. rewrite Hp'.
  eexists. exists p'. split; [reflexivity|]. split; [reflexivity|].
  split.
  { intros k. rewrite sqlite_has_item_replaced, Hview.
    destruct (bool_decide (k = key)); [by destruct b | apply Hsame]. }
  split.
  { rewrite sqlite_has_item_replaced, bool_decide_eq_true_2 by reflexivity.
    by destruct b. }
  split.
  { eexists. split; [apply records_replaced; reflexivity|]. split; [reflexivity|].
    intros old Hold. split.
    - simpl. unfold next_rowid. pose proof (row_id_bound _ _ Hold). lia.
    - intros Hok Hin. simpl in Hin. apply elem_of_app in Hin as [Hin|Hin].
      + apply list_elem_of_In, filter_In in Hin as [_ Hneg].
        apply has_key_true in Hok. rewrite Hok in Hneg. discriminate.
      + apply list_elem_of_singleton in Hin.
        pose proof (row_id_bound _ _ Hold) as Hbound.
        rewrite Hin in Hbound at 1. simpl in Hbound. unfold next_rowid in Hbound. lia. }
  intros old Hold. rewrite (Hplace old Hold). split.
  - rewrite find_update, Hold. simpl. unfold update_has_item.
    rewrite (proj2 (pg_has_key_true _ _) (find_has_key _ _ _ Hold)). reflexivity.
  - split; rewrite <- list_fmap_compose; apply list_fmap_ext; intros i row _; simpl;
      unfold update_has_item; destruct (pg_has_key key row); reflexivity.
Qed.

(* ===================================================================== *)
(** ** The normalizer *)
(* ===================================================================== *)

Lemma split_cons sep s : exists piece pieces, split sep s = piece :: pieces.
Proof.
  destruct s as [|c s]; simpl; [eauto|].
  destruct (c =? sep); [eauto|]. destruct (split sep s); eauto.
Qed.

(** Joining the pieces with the separator gives the string back. *)
Lemma join_split sep s : join sep (split sep s) = s.
Proof.
  induction s as [|c s IH]; simpl; [reflexivity|].
  destruct (split_cons sep s) as (piece & pieces & Hs). rewrite Hs in *.
  destruct (c =? sep) eqn:Hc.
  - apply Z.eqb_eq in Hc. subst c. simpl in *. by rewrite IH.
  - simpl in *. destruct pieces; simpl in *; by rewrite IH.
Qed.

(** No piece holds the separator. *)
Lemma split_pieces sep s : Forall (fun piece => sep ∉ piece) (split sep s).
Proof.
  induction s as [|c s IH]; simpl.
  - constructor; [apply not_elem_of_nil | constructor].
  - destruct (c =? sep) eqn:Hc.
    + constructor; [apply not_elem_of_nil | exact IH].
    + apply Z.eqb_neq in Hc.
      destruct (split sep s) as [|piece pieces].
      * constructor; [|constructor]. intros [->|Hin]%elem_of_cons; [congruence|].
        inversion Hin.
      * inversion IH as [|? ? Hpiece Hpieces]; subst.
        constructor; [|exact Hpieces].
        intros [->|Hin]%elem_of_cons; [congruence | auto].
Qed.

Lemma trimStart_spec s :
  exists pre, s = pre ++ trimStart s /\ blank pre /\
              forall c, head (trimStart s) = Some c -> isWhiteSpace c = false.
Proof.
  induction s as [|c s (pre & Hs & Hpre & Hhead)]; simpl.
  - exists []. split; [reflexivity|]. split; [constructor | discriminate].
  - destruct (isWhiteSpace c) eqn:Hc.
    + exists (c :: pre). split; [simpl; congruence|]. split; [by constructor | exact Hhead].
    + exists []. split; [reflexivity|]. split; [constructor|].
      simpl. intros c' [= <-]. exact Hc.
Qed.

Lemma trimEnd_spec s :
  exists post, s = trimEnd s ++ post /\ blank post /\
               forall c, last (trimEnd s) = Some c -> isWhiteSpace c = false.
Proof.
  unfold trimEnd. destruct (trimStart_spec (reverse s)) as (pre & Hs & Hpre & Hhead).
  exists (reverse pre). split; [|split].
  - rewrite <- reverse_app, <- Hs. symmetry. apply reverse_involutive.
  - by apply Forall_reverse.
  - intros c. rewrite last_reverse. apply Hhead.
Qed.

(** [trim] takes the blanks off both ends, and only them. *)
Lemma trim_spec s :
  exists pre post,
    s = pre ++ trim s ++ post /\ blank pre /\ blank post /\
    (forall c, head (trim s) = Some c -> isWhiteSpace c = false) /\
    (forall c, last (trim s) = Some c -> isWhiteSpace c = false).
Proof.
  unfold trim.
  destruct (trimStart_spec s) as (pre & Hs & Hpre & Hhead).
  destruct (trimEnd_spec (trimStart s)) as (post & Ht & Hpost & Hlast).
  exists pre, post. split; [congruence|]. split; [exact Hpre|]. split; [exact Hpost|].
  split; [|exact Hlast].
  intros c Hc. apply Hhead. rewrite Ht.
  destruct (trimEnd (trimStart s)); [discriminate | exact Hc].
Qed.

Lemma lower_trim_basic_latin `{CaseMapping} piece :
  forallb isBasicLatin (trim piece) = true ->
  toLowerCase (trim piece) = map lowerBasicLatin (trim piece).
Proof. apply toLowerCase_basic_latin. Qed.

(** C5.  [ingredientList] cuts the string at every comma (the pieces hold
    no comma and joined by commas give the string back), trims each piece,
    lowers its case and keeps, in order, the results that are not empty;
    trimming removes a run of white space at each end and leaves a string
    that neither starts nor ends with white space.  The empty string gives
    the empty list, "2 ovos, Sal , queijo ralado,," gives
    ["2 ovos"; "sal"; "queijo ralado"], and a repeated ingredient is kept
    twice. *)
Theorem ingredientList_normalizes `{CaseMapping} :
  (forall raw,
     exists pieces,
       pieces <> [] /\ join comma pieces = raw /\
       Forall (fun piece => comma ∉ piece) pieces /\
       ingredientList raw
       = filter (fun ingredient => ingredient <> [])
                ((fun piece => toLowerCase (trim piece)) <$> pieces))
  /\
  (forall piece,
     exists pre post,
       piece = pre ++ trim piece ++ post /\ blank pre /\ blank post /\
       (forall c, head (trim piece) = Some c -> isWhiteSpace c = false) /\
       (forall c, last (trim piece) = Some c -> isWhiteSpace c = false))
  /\
  ingredientList [] = []
  /\
  ingredientList (u16 "2 ovos, Sal , queijo ralado,,")
  = [u16 "2 ovos"; u16 "sal"; u16 "queijo ralado"]
  /\
  ingredientList (u16 "ovos,Ovos") = [u16 "ovos"; u16 "ovos"].
Proof.
  split; [|split; [|split; [|split]]].
  - intros raw. exists (split comma raw).
    split. { destruct (split_cons comma raw) as (? & ? & ->). discriminate. }
    split; [apply join_split|]. split; [apply split_pieces|].
    unfold ingredientList. apply list_filter_iff. intros ingredient.
    destruct ingredient; simpl; split; (lia || congruence || auto).
  - apply trim_spec.
  - unfold ingredientList. simpl. change (trim []) with (@nil Z).
    rewrite toLowerCase_basic_latin by reflexivity. reflexivity.
  - unfold ingredientList.
    replace (split comma (u16 "2 ovos, Sal , queijo ralado,,"))
      with [u16 "2 ovos"; u16 " Sal "; u16 " queijo ralado"; []; []]
      by (vm_compute; reflexivity).
    cbn [map]. rewrite !lower_trim_basic_latin by (vm_compute; reflexivity).
    vm_compute. reflexivity.
  - unfold ingredientList.
    replace (split comma (u16 "ovos,Ovos")) with [u16 "ovos"; u16 "Ovos"]
      by (vm_compute; reflexivity).
    cbn [map]. rewrite !lower_trim_basic_latin by (vm_compute; reflexivity).
    vm_compute. reflexivity.
Qed.

(* ===================================================================== *)
(** ** Which keys reach the store *)
(* ===================================================================== *)

(** Whatever its end, a run only sends statements about the ingredients
    of its list. *)
Lemma processRest_issued e l r :
  exists qs, issued (db (fst (processRest e l r))) = issued (db r) ++ qs /\
             Forall (fun q => statement_key q ∈ l) qs.
Proof.
  revert r. induction l as [|x l IH]; intros r; simpl.
  - exists []. by rewrite app_nil_r.
  - destruct (processIngredient e x r) as [r1 [err|]] eqn:Hstep; simpl.
    + apply processIngredient_failed in Hstep as (_ & _ & _ & _ & [Hq|Hq]);
        eexists; (split; [exact Hq|]); repeat constructor.
    + destruct (IH r1) as (qs & Hq & Hqs).
      assert (Hweak : Forall (fun q => statement_key q ∈ x :: l) qs).
      { eapply Forall_impl; [exact Hqs|]. intros q ?. by right. }
      apply processIngredient_ok in Hstep as [_ [(_ & _ & Hdb)|(_ & _ & Hdb)]];
        rewrite Hdb in Hq; simpl in Hq; rewrite <- app_assoc in Hq;
        eexists; (split; [exact Hq|]); simpl; repeat (constructor; [by left|]);
        exact Hweak.
Qed.

Lemma ingredientList_normalized `{CaseMapping} raw ingredient :
  ingredient ∈ ingredientList raw ->
  exists piece, piece ∈ split comma raw /\ ingredient = normalized piece.
Proof.
  unfold ingredientList. intros [_ Hin]%list_elem_of_filter.
  apply list_elem_of_In, in_map_iff in Hin as (piece & <- & Hin).
  exists piece. split; [by apply list_elem_of_In | reflexivity].
Qed.

(** C6.  The reconciler endpoint sends the store nothing but normalized
    keys.  The upsert endpoints send the key as it came: after the upserts
    of "sal" and " Sal" both variants hold two records, whose keys differ
    and are the same once normalized. *)
Theorem pantry_keys_normalization `{CaseMapping} :
  (* the reconciler endpoint asks the store about normalized keys only *)
  (forall e raw s,
     exists qs,
       issued (fst (post_process_ingredients e (Some (JStr raw)) s)) = issued s ++ qs /\
       Forall (fun q => exists piece, piece ∈ split comma raw /\
                                      statement_key q = normalized piece) qs)
  /\
  (* the upsert endpoints store the key as it was sent *)
  (let s1 := fst (post_pantry quiet (Some sal) (Some (JBool true)) empty_db) in
   let s2 := fst (post_pantry quiet (Some (u16 " Sal")) (Some (JBool true)) s1) in
   row_ingredient <$> pantry s2 = [sal; u16 " Sal"])
  /\
  (let p1 := fst (post_pantry_production quiet (Some sal) (Some true) empty_pg) in
   let p2 := fst (post_pantry_production quiet (Some (u16 " Sal")) (Some true) p1) in
   pg_ingredient <$> pg_pantry p2 = [sal; u16 " Sal"])
  /\
  sal <> u16 " Sal" /\ normalized sal = normalized (u16 " Sal").
Proof.
  split; [|split; [|split; [|split]]].
  - intros e raw s. unfold post_process_ingredients.
    destruct raw as [|c raw].
    { exists []. simpl. by rewrite app_nil_r. }
    cbn [truthy negb]. rewrite bool_decide_eq_false_2 by discriminate. cbn [negb].
    rewrite reconcile_processRest.
    destruct (processRest_issued e (ingredientList (c :: raw)) (start s)) as (qs & Hq & Hqs).
    exists qs. split.
    + destruct (processRest e (ingredientList (c :: raw)) (start s)) as [r [err|]];
        exact Hq.
    + eapply Forall_impl; [exact Hqs|]. intros q Hin.
      by apply ingredientList_normalized.
  - vm_compute. reflexivity.
  - vm_compute. reflexivity.
  - discriminate.
  - unfold normalized. rewrite !lower_trim_basic_latin by (vm_compute; reflexivity).
    vm_compute. reflexivity.
Qed.

(* ===================================================================== *)
(** ** The theorems at sample requests *)
(* ===================================================================== *)

(** [ovos; sal; ovos] against the empty pantry. *)
Lemma duplicate_inserted_once_witness :
  let r' := fst (reconcile quiet [ovos; sal; ovos] empty_db) in
  length (records ovos (db r')) = 1%nat /\ inserts_of ovos (db r') = 1%nat.
Proof.
  destruct (proj1 duplicate_inserted_once quiet [] [sal] [] ovos empty_db
              (fst (reconcile quiet [ovos; sal; ovos] empty_db))
              (summary [ovos; sal; ovos] (fst (reconcile quiet [ovos; sal; ovos] empty_db))))
    as (r1 & r2 & r3 & r4 & row & _ & _ & _ & _ & _ & _ & _ & _ & _ & _ & _ & _ & Hrec & Hins).
  - apply not_elem_of_nil.
  - reflexivity.
  - vm_compute. reflexivity.
  - simpl. rewrite Hrec, Hins. split; reflexivity.
Defined.

(** [arroz; feijao] against a pantry that has arroz. *)
Lemma processIngredient_reconciles_witness :
  let s := {| pantry := [{| row_id := 1; row_ingredient := arroz; row_has_item := 1;
                            row_created_at := 0 |}];
              pantry_seq := 1; issued := [] |} in
  exists r' new,
    reconcile quiet [arroz; feijao] s = (r', Responded 200 (summary [arroz; feijao] r')) /\
    processedCount r' = 2%nat /\
    addedToShoppingList r' = 1%nat /\
    pantry (db r') = pantry s ++ [new] /\
    row_ingredient new = feijao /\ row_has_item new = 0 /\
    records arroz (db r') = records arroz s.
Proof.
  intros s.
  apply (proj2 (proj2 (proj2 processIngredient_reconciles)) quiet s
           {| row_id := 1; row_ingredient := arroz; row_has_item := 1; row_created_at := 0 |}).
  - intros n. reflexivity.
  - by left.
  - reflexivity.
  - reflexivity.
  - reflexivity.
Defined.

(** Five ingredients, the lookup of the third fails. *)
Lemma storage_failure_aborts_witness :
  let e := failing_at 4 in
  snd (reconcile e five empty_db) = Responded 500 (error_body busy) /\
  row_ingredient <$> pantry (db (fst (reconcile e five empty_db))) = [u16 "a"; u16 "b"] /\
  issued (db (fst (reconcile e five empty_db)))
  = [SelectPantry (u16 "a"); InsertPantry (u16 "a") 0;
     SelectPantry (u16 "b"); InsertPantry (u16 "b") 0; SelectPantry (u16 "c")].
Proof.
  intros e.
  destruct (storage_failure_aborts e five 2 empty_db
              (fst (reconcile e (take 2 five) empty_db))
              (summary (take 2 five) (fst (reconcile e (take 2 five) empty_db)))
              (fst (processIngredient e (five !!! 2%nat)
                      (fst (reconcile e (take 2 five) empty_db))))
              busy) as (Hrun & _).
  - simpl. lia.
  - vm_compute. reflexivity.
  - vm_compute. reflexivity.
  - rewrite Hrun. split; [reflexivity|]. split; vm_compute; reflexivity.
Defined.

(** [ovos; sal] twice, the second time with a failing lookup. *)
Lemma second_reconciliation_adds_nothing_witness :
  let r1 := fst (reconcile quiet [ovos; sal] empty_db) in
  addedToShoppingList r1 = 2%nat /\
  addedToShoppingList (fst (reconcile (failing_at 6) [ovos; sal] (db r1))) = 0%nat /\
  pantry (db (fst (reconcile (failing_at 6) [ovos; sal] (db r1)))) = pantry (db r1).
Proof.
  intros r1.
  destruct (second_reconciliation_adds_nothing quiet (failing_at 6) [ovos; sal] empty_db
              r1 (summary [ovos; sal] r1)) as (Ha & Hp & _).
  - vm_compute. reflexivity.
  - split; [reflexivity|]. split; [exact Ha | exact Hp].
Defined.

(** The summary for "Ovos, sal ,ovos" against the empty pantry. *)
Lemma summary_of_successful_call_witness :
  exists raw,
    Some (JStr (u16 "Ovos, sal ,ovos")) = Some (JStr raw) /\
    snd (post_process_ingredients quiet (Some (JStr (u16 "Ovos, sal ,ovos"))) empty_db)
    = Responded 200
       (JObj [("message"%string,
                JStr (u16 "Processados "
                      ++ numberToString (length (ingredientList raw))
                      ++ u16 " ingredientes"));
              ("addedToShoppingList"%string, JNum 2);
              ("ingredients"%string, JArr (JStr <$> ingredientList raw))]).
Proof.
  destruct (summary_of_successful_call quiet (Some (JStr (u16 "Ovos, sal ,ovos"))) empty_db
              (fst (post_process_ingredients quiet (Some (JStr (u16 "Ovos, sal ,ovos"))) empty_db))
              (summary [ovos; sal; ovos]
                 {| processedCount := 3; addedToShoppingList := 2; db := empty_db |}))
    as (raw & Hraw & Hbody).
  - vm_compute. reflexivity.
  - exists raw. split; [exact Hraw|].
    injection Hraw as <-. vm_compute. reflexivity.
Defined.

(** An upsert of "sal" that sends no has_item. *)
Lemma upsert_without_has_item_stores_false_witness :
  exists s' row,
    post_pantry quiet (Some sal) None empty_db = (s', Responded 200 pantry_updated) /\
    records sal s' = [row] /\
    row_has_item row = 0 /\
    row_has_item row <> has_item_default.
Proof.
  apply upsert_without_has_item_stores_false; [discriminate | reflexivity | reflexivity].
Defined.

(** "sal" on hand in both variants, then upserted as missing. *)
Lemma upsert_variants_agree_witness :
  let s := {| pantry := [{| row_id := 1; row_ingredient := sal; row_has_item := 1;
                            row_created_at := 0 |}];
              pantry_seq := 1; issued := [] |} in
  let p := {| pg_pantry := [{| pg_id := 1; pg_ingredient := sal; pg_has_item := Some true;
                               pg_created_at := 0 |}];
              pantry_id_seq := 1; pg_issued := [] |} in
  let s' := fst (post_pantry quiet (Some sal) (Some (JBool false)) s) in
  let p' := fst (post_pantry_production quiet (Some sal) (Some false) p) in
  same_availability s' p' /\
  row_id <$> pantry s' = [2] /\
  pg_id <$> pg_pantry p' = [1].
Proof.
  intros s p s' p'.
  destruct (upsert_variants_agree quiet quiet sal false s p) as (s0 & p0 & Hs & Hp & Hsame & _).
  - discriminate.
  - intros key. unfold sqlite_has_item, postgres_has_item. simpl.
    unfold has_key, pg_has_key. simpl. destruct (bool_decide (sal = key)); reflexivity.
  - reflexivity.
  - reflexivity.
  - unfold s', p'. rewrite Hs, Hp. simpl. split; [exact Hsame|].
    injection Hs as <-. injection Hp as <-. split; reflexivity.
Defined.
